(** * parquet::Decoder — the typed decoder contract and its default
      spaced decode (cpp/src/parquet/encodings/decoder.h)

    The class template [Decoder<DType>] is embedded shallowly: the object's
    data members are a record, each member function is a function in a
    state-and-exception monad over the object's non-const members and the
    caller's output buffer, and virtual dispatch is a record of overrides. *)

From stdpp Require Import base numbers option list strings.

Local Open Scope Z_scope.

(** ** Machine integers

    [int] is 32 bits and [int64_t] 64 bits, both two's complement; the
    arithmetic of the source is written with its wrap-around. *)
Module Int.

Definition wrap (w z : Z) : Z := (z + 2 ^ (w - 1)) `mod` 2 ^ w - 2 ^ (w - 1).

Definition int_min : Z := - 2 ^ 31.
Definition int_max : Z := 2 ^ 31 - 1.
Definition int64_max : Z := 2 ^ 63 - 1.

(** [a - b] on [int]. *)
Definition sub32 (a b : Z) : Z := wrap 32 (a - b).

(** [a + b] on [int64_t] (the [int] operand is promoted first). *)
Definition add64 (a b : Z) : Z := wrap 64 (a + b).

End Int.

(** ** Exceptions and outcomes *)

(** [ParquetException], identified by its message. *)
Inductive ParquetException : Type :=
  mkParquetException (what : string).

Definition not_implemented : ParquetException :=
  mkParquetException "Decoder does not implement this type.".

Definition count_mismatch : ParquetException :=
  mkParquetException "Number of values / definition_levels read did not match".

(** How a call ends: it returns, it throws, or it leaves the defined
    behaviour of C++ (an access outside the buffer or the bitmap). *)
Inductive outcome (A : Type) : Type :=
  | Returned (a : A)
  | Thrown (e : ParquetException)
  | Undefined.
Arguments Returned {A} a.
Arguments Thrown {A} e.
Arguments Undefined {A}.

(** ** The validity bitmap *)

(** Modelled from the spec: [::arrow::BitUtil::GetBit] of
    arrow/util/bit-util.h, which is not part of this file. The spec calls it
    a bit-addressable read-only view over a packed bit sequence answering
    whether logical slot [i] is non-null; bit [i] is bit [i % 8] of byte
    [i / 8]. A read outside the bitmap has no defined result. *)
Definition GetBit (bits : list Z) (i : Z) : option bool :=
  if bool_decide (0 ≤ i)
  then match bits !! Z.to_nat (i `quot` 8) with
       | Some byte => Some (Z.testbit byte (i `rem` 8))
       | None => None
       end
  else None.

Section Decoder.

(** [T] is [DType::c_type]; [ColumnDescriptor] and [Encoding::type] are
    declared in headers outside this file; [Derived] stands for the data
    members a subclass adds. *)
Context {T ColumnDescriptor EncodingType Derived : Type}.

(** ** The object *)

(** The data members a member function may assign. *)
Record Members : Type := mkMembers {
  num_values_ : Z;
  derived : Derived
}.

(** The object: the two const members and the assignable ones. *)
Record Decoder : Type := mkObject {
  descr_ : ColumnDescriptor;
  encoding_ : EncodingType;
  members : Members
}.

(** What a decode call reads and writes: the object's assignable members
    and the caller's output array [buffer]. *)
Record Mem : Type := mkMem {
  self : Members;
  buffer : list T
}.

(** A member function with result type [A]. *)
Definition Call (A : Type) : Type := Mem → outcome A * Mem.

Definition throw {A} (e : ParquetException) : Call A := λ m, (Thrown e, m).
Definition undefined {A} : Call A := λ m, (Undefined, m).

#[global] Instance Call_ret : MRet Call := λ A a m, (Returned a, m).
#[global] Instance Call_bind : MBind Call := λ A B k c m,
  match c m with
  | (Returned a, m') => k a m'
  | (Thrown e, m') => (Thrown e, m')
  | (Undefined, m') => (Undefined, m')
  end.

(** [buffer[i]] as an rvalue and [buffer[i] = v]. *)
Definition load (i : Z) : Call T := λ m,
  if bool_decide (0 ≤ i)
  then match buffer m !! Z.to_nat i with
       | Some v => (Returned v, m)
       | None => (Undefined, m)
       end
  else (Undefined, m).

Definition store (i : Z) (v : T) : Call unit := λ m,
  if bool_decide (0 ≤ i < Z.of_nat (length (buffer m)))
  then (Returned (), mkMem (self m) (<[Z.to_nat i := v]> (buffer m)))
  else (Undefined, m).

(** ** Virtual member functions *)

(** What a concrete encoding supplies: [SetData] is pure virtual; [Decode]
    and [DecodeSpaced] may each be overridden or inherited. *)
Record Subclass : Type := mkSubclass {
  SetData : Z → list Z → Z → Members → outcome unit * Members;
  Decode_override : option (Z → Call Z);
  DecodeSpaced_override : option (Z → Z → list Z → Z → Call Z)
}.

(** The body of [Decoder::Decode] in the base class. *)
Definition Decode_base (max_values : Z) : Call Z :=
  throw not_implemented.

(** [Decode] as virtual dispatch resolves it. *)
Definition Decode (K : Subclass) : Z → Call Z :=
  default Decode_base (Decode_override K).

(** The bit the spacing loop tests for slot [i]. *)
Definition valid_slot (valid_bits : list Z) (valid_bits_offset i : Z) : option bool :=
  GetBit valid_bits (Int.add64 valid_bits_offset i).

(** The loop of [DecodeSpaced], [k] iterations left: [i] is [k - 1] and runs
    down to [0]. The result is a ghost log of the moves made, each a pair
    (destination, source). *)
Fixpoint spacing_loop (valid_bits : list Z) (valid_bits_offset : Z)
    (k : nat) (values_to_move : Z) : Call (list (Z * Z)) :=
  match k with
  | O => mret []
  | S k' =>
      let i := Z.of_nat k' in
      match valid_slot valid_bits valid_bits_offset i with
      | None => undefined
      | Some true =>
          let values_to_move := Int.sub32 values_to_move 1 in
          v ← load values_to_move;
          store i v;;
          log ← spacing_loop valid_bits valid_bits_offset k' values_to_move;
          mret ((i, values_to_move) :: log)
      | Some false =>
          spacing_loop valid_bits valid_bits_offset k' values_to_move
      end
  end.

(** The body of [Decoder::DecodeSpaced] in the base class. The [for] loop
    starts at [i = num_values - 1] and runs while [i >= 0]: that is [i + 1]
    iterations, none when [i] starts negative. *)
Definition DecodeSpaced (K : Subclass) (num_values null_count : Z)
    (valid_bits : list Z) (valid_bits_offset : Z) : Call Z :=
  let values_to_read := Int.sub32 num_values null_count in
  values_read ← Decode K values_to_read;
  if bool_decide (values_read ≠ values_to_read)
  then throw count_mismatch
  else
    let values_to_move := values_read in
    spacing_loop valid_bits valid_bits_offset
      (Z.to_nat (Int.sub32 num_values 1 + 1)) values_to_move;;
    mret num_values.

(** [DecodeSpaced] as virtual dispatch resolves it. *)
Definition DecodeSpaced_virtual (K : Subclass) : Z → Z → list Z → Z → Call Z :=
  default (DecodeSpaced K) (DecodeSpaced_override K).

(** ** Accessors and construction *)

Definition values_left (d : Decoder) : Z := num_values_ (members d).

Definition encoding (d : Decoder) : EncodingType := encoding_ d.

(** The protected constructor; [init] is what the subclass's constructor
    gives its own members. *)
Definition mkDecoder (descr : ColumnDescriptor) (enc : EncodingType)
    (init : Derived) : Decoder :=
  mkObject descr enc (mkMembers 0 init).

(** ** Calls on an object *)

(** A decode member function called on object [d] with output array [buf]:
    the const members are out of its reach. *)
Definition call_on {A} (c : Call A) (d : Decoder) (buf : list T)
    : outcome A * Decoder * list T :=
  let '(r, m) := c (mkMem (members d) buf) in
  (r, mkObject (descr_ d) (encoding_ d) (self m), buffer m).

(** [d.SetData(num_values, data, len)]. *)
Definition call_SetData (K : Subclass) (num_values : Z) (data : list Z)
    (len : Z) (d : Decoder) : outcome unit * Decoder :=
  let '(r, ms) := SetData K num_values data len (members d) in
  (r, mkObject (descr_ d) (encoding_ d) ms).

(** The calls a page-driving caller makes on a decoder. *)
Inductive request : Type :=
  | ReqSetData (num_values : Z) (data : list Z) (len : Z)
  | ReqDecode (buf : list T) (max_values : Z)
  | ReqDecodeSpaced (buf : list T) (num_values null_count : Z)
      (valid_bits : list Z) (valid_bits_offset : Z).

(** Whether a call is a decode call, not a [SetData]. *)
Definition decoding_request (q : request) : bool :=
  match q with
  | ReqSetData _ _ _ => false
  | ReqDecode _ _ | ReqDecodeSpaced _ _ _ _ _ => true
  end.

(** The object after one call, however the call ended. *)
Definition serve (K : Subclass) (d : Decoder) (q : request) : Decoder :=
  match q with
  | ReqSetData n data len => (call_SetData K n data len d).2
  | ReqDecode buf max_values => (call_on (Decode K max_values) d buf).1.2
  | ReqDecodeSpaced buf n nc bits off =>
      (call_on (DecodeSpaced_virtual K n nc bits off) d buf).1.2
  end.

(** The object after a sequence of calls. *)
Definition serve_all (K : Subclass) (d : Decoder) (qs : list request) : Decoder :=
  foldl (serve K) d qs.

(** ** Counting over the null pattern *)

(** Non-null slots among the first [k]: the rank of slot [k]. *)
Fixpoint count_set (valid_bits : list Z) (valid_bits_offset : Z) (k : nat) : Z :=
  match k with
  | O => 0
  | S k' =>
      count_set valid_bits valid_bits_offset k'
      + match valid_slot valid_bits valid_bits_offset (Z.of_nat k') with
        | Some true => 1
        | _ => 0
        end
  end.

(** Null slots among the first [k]; [None] when the bitmap does not hold all
    of the [k] addressed bits. *)
Fixpoint count_clear (valid_bits : list Z) (valid_bits_offset : Z) (k : nat)
    : option Z :=
  match k with
  | O => Some 0
  | S k' =>
      match count_clear valid_bits valid_bits_offset k',
            valid_slot valid_bits valid_bits_offset (Z.of_nat k') with
      | Some c, Some b => Some (if b then c else c + 1)
      | _, _ => None
      end
  end.

(** The moves the spacing loop makes over the first [k] slots when its
    cursor starts at their number of non-null slots: slot [i] receives the
    entry at its rank. *)
Fixpoint rank_moves (valid_bits : list Z) (valid_bits_offset : Z) (k : nat)
    : list (Z * Z) :=
  match k with
  | O => []
  | S k' =>
      match valid_slot valid_bits valid_bits_offset (Z.of_nat k') with
      | Some true =>
          (Z.of_nat k', count_set valid_bits valid_bits_offset k')
          :: rank_moves valid_bits valid_bits_offset k'
      | _ => rank_moves valid_bits valid_bits_offset k'
      end
  end.

(** The non-null slots among the first [k], the last one first: the order
    in which the spacing loop meets them. *)
Fixpoint valid_slots (valid_bits : list Z) (valid_bits_offset : Z) (k : nat)
    : list Z :=
  match k with
  | O => []
  | S k' =>
      match valid_slot valid_bits valid_bits_offset (Z.of_nat k') with
      | Some true => Z.of_nat k' :: valid_slots valid_bits valid_bits_offset k'
      | _ => valid_slots valid_bits valid_bits_offset k'
      end
  end.

(** What a reader of the spaced buffer [l] sees: the entries of its non-null
    slots among the first [k], in index order. *)
Fixpoint valid_entries (valid_bits : list Z) (valid_bits_offset : Z) (k : nat)
    (l : list T) : list T :=
  match k with
  | O => []
  | S k' =>
      valid_entries valid_bits valid_bits_offset k' l
      ++ match valid_slot valid_bits valid_bits_offset (Z.of_nat k'), l !! k' with
         | Some true, Some v => [v]
         | _, _ => []
         end
  end.

End Decoder.

Arguments Members : clear implicits.
Arguments Decoder : clear implicits.
Arguments Mem : clear implicits.
Arguments Subclass : clear implicits.
Arguments request : clear implicits.

(** ** A concrete encoding, from the contract *)

Module Dense.
Section Dense.

Context {T : Type}.

(** The wire format of the encoding: the values a page's bytes hold. *)
Variable values_of : list Z → list T.

(** Modelled from the spec: [Load(count, buffer)] of a concrete encoding; no
    override of the pure virtual [SetData] is part of this file. It discards
    the state of the previous page and resets the remaining-value counter to
    [count]. The subclass's own member is the page's values not yet emitted. *)
Definition SetData (num_values : Z) (data : list Z) (len : Z)
    (ms : Members (list T)) : outcome unit * Members (list T) :=
  (Returned (), mkMembers num_values (values_of (take (Z.to_nat len) data))).

(** Modelled from the spec: [DecodeDense(maxCount)] of a concrete encoding;
    no override of [Decode] is part of this file. It writes [maxCount] values
    at the front of the output region unless the page has fewer remaining, in
    which case it writes however many remain; it advances the cursor,
    decreases the remaining-value counter by the number written and returns
    that number. The output region must hold that many entries. *)
Definition Decode (max_values : Z) : Call (T:=T) (Derived:=list T) Z := λ m,
  let remaining := num_values_ (self m) in
  let written :=
    if bool_decide (max_values ≤ remaining) then max_values else remaining in
  if bool_decide (written ≤ Z.of_nat (length (buffer m)))
  then
    let page := derived (self m) in
    (Returned written,
     mkMem (mkMembers (remaining - written) (drop (Z.to_nat written) page))
           (list_inserts 0 (take (Z.to_nat written) page) (buffer m)))
  else (Undefined, m).

Definition encoding_class : Subclass T (list T) :=
  mkSubclass SetData (Some Decode) None.

End Dense.
End Dense.

(** ** Sample decoders and inputs *)

Module Samples.

(** One value per byte of the page. *)
Definition bytewise : Subclass Z (list Z) :=
  Dense.encoding_class (λ data, data).

(** A subclass that implements [SetData] and inherits [Decode]. *)
Definition inheriting : Subclass Z unit :=
  mkSubclass (λ num_values _ _ _, (Returned (), mkMembers num_values ()))
             None None.

(** A page holding [A, B, C] = [10, 20, 30]. *)
Definition page_ABC : Members (list Z) := mkMembers 3 [10; 20; 30].

(** A page with two values left. *)
Definition page_AB : Members (list Z) := mkMembers 2 [10; 20].

(** The members once such a page is read to its end. *)
Definition drained : Members (list Z) := mkMembers 0 [].

(** Five output slots as the caller filled them. *)
Definition caller_slots : list Z := [91; 92; 93; 94; 95].

(** The null pattern [1,0,1,0,1], slot 0 first: the byte 0b10101. *)
Definition pattern_10101 : list Z := [21].

(** Eight non-null slots. *)
Definition pattern_all_set : list Z := [255].

(** Eight null slots. *)
Definition pattern_all_clear : list Z := [0].

(** The sample buffer once the dense run [A, B, C] is at its front. *)
Definition dense_ABC : list Z := [10; 20; 30; 94; 95].

End Samples.

(** * Properties *)

(** ** Machine integers *)

Lemma wrap32_id (z : Z) :
  Int.int_min ≤ z ≤ Int.int_max → Int.wrap 32 z = z.
Proof.
  unfold Int.wrap, Int.int_min, Int.int_max.
  change (2 ^ (32 - 1)) with 2147483648. change (2 ^ 32) with 4294967296.
  change (2 ^ 31) with 2147483648.
  intros H. rewrite Z.mod_small; lia.
Qed.

Lemma sub32_exact (a b : Z) :
  Int.int_min ≤ a - b ≤ Int.int_max → Int.sub32 a b = a - b.
Proof. apply wrap32_id. Qed.

Lemma int_max_pos : 0 < Int.int_max.
Proof. reflexivity. Qed.

Lemma int_min_neg : Int.int_min < -1.
Proof. reflexivity. Qed.

Section Facts.

Context {T ColumnDescriptor EncodingType Derived : Type}.

Implicit Types (K : Subclass T Derived) (m : Mem T Derived).
Implicit Types (s : Members Derived) (buf cur vals : list T).
Implicit Types (bits : list Z) (off : Z) (k i j : nat).

(** ** Counting *)

Lemma count_set_bounds bits off k :
  0 ≤ count_set bits off k ≤ Z.of_nat k.
Proof.
  induction k as [|k IH]; simpl; [lia|].
  destruct (valid_slot bits off (Z.of_nat k)) as [[]|]; lia.
Qed.

Lemma count_set_mono bits off i j :
  (i ≤ j)%nat → count_set bits off i ≤ count_set bits off j.
Proof.
  induction 1 as [|j _ IH]; [lia|]. simpl.
  destruct (valid_slot bits off (Z.of_nat j)) as [[]|]; lia.
Qed.

Lemma count_set_lt bits off i j :
  (i < j)%nat → valid_slot bits off (Z.of_nat i) = Some true →
  count_set bits off i < count_set bits off j.
Proof.
  intros Hij Hi. pose proof (count_set_mono bits off (S i) j Hij) as Hm.
  simpl in Hm. rewrite Hi in Hm. lia.
Qed.

Lemma count_clear_S bits off k c :
  count_clear bits off (S k) = Some c →
  ∃ c' b, count_clear bits off k = Some c'
          ∧ valid_slot bits off (Z.of_nat k) = Some b
          ∧ c = if b then c' else c' + 1.
Proof.
  simpl. destruct (count_clear bits off k) as [c'|]; [|done].
  destruct (valid_slot bits off (Z.of_nat k)) as [b|]; [|done].
  intros [= <-]. eauto.
Qed.

Lemma count_clear_set bits off k c :
  count_clear bits off k = Some c →
  count_set bits off k = Z.of_nat k - c.
Proof.
  revert c. induction k as [|k IH]; intros c Hc.
  - simpl in *. injection Hc as <-. lia.
  - apply count_clear_S in Hc as (c' & b & Hc' & Hb & ->).
    simpl. rewrite Hb, (IH _ Hc'). destruct b; lia.
Qed.

Lemma count_clear_bounds bits off k c :
  count_clear bits off k = Some c → 0 ≤ c ≤ Z.of_nat k.
Proof.
  intros Hc. pose proof (count_clear_set _ _ _ _ Hc).
  pose proof (count_set_bounds bits off k). lia.
Qed.

Lemma count_clear_covered bits off k c i :
  count_clear bits off k = Some c → (i < k)%nat →
  is_Some (valid_slot bits off (Z.of_nat i)).
Proof.
  revert c. induction k as [|k IH]; intros c Hc Hi; [lia|].
  apply count_clear_S in Hc as (c' & b & Hc' & Hb & _).
  destruct (decide (i = k)) as [->|]; [eauto|].
  apply (IH c'); [done|lia].
Qed.

(** ** The monad *)

Lemma bind_Returned {A B} (c : Call A) (f : A → Call B) m a m' :
  c m = (Returned a, m') → (c ≫= f) m = f a m'.
Proof. intros H. unfold mbind, Call_bind. by rewrite H. Qed.

Lemma bind_Thrown {A B} (c : Call A) (f : A → Call B) m e m' :
  c m = (Thrown e, m') → (c ≫= f) m = (Thrown e, m').
Proof. intros H. unfold mbind, Call_bind. by rewrite H. Qed.

Lemma bind_Undefined {A B} (c : Call A) (f : A → Call B) m m' :
  c m = (Undefined, m') → (c ≫= f) m = (Undefined, m').
Proof. intros H. unfold mbind, Call_bind. by rewrite H. Qed.

Lemma load_in_range (z : Z) s cur v :
  0 ≤ z → cur !! Z.to_nat z = Some v →
  load z (mkMem s cur) = (Returned v, mkMem s cur).
Proof.
  intros Hz Hv. unfold load. rewrite bool_decide_eq_true_2 by done.
  simpl. by rewrite Hv.
Qed.

Lemma store_in_range (z : Z) (v : T) s cur :
  0 ≤ z < Z.of_nat (length cur) →
  store z v (mkMem s cur) = (Returned (), mkMem s (<[Z.to_nat z := v]> cur)).
Proof.
  intros Hz. unfold store. simpl. by rewrite bool_decide_eq_true_2.
Qed.

(** ** The spacing loop *)

(** Started with its cursor at the number of non-null slots among the first
    [k], the loop ends normally, makes the moves of [rank_moves], and leaves
    slot [i] holding the entry at its rank when non-null and alone when null. *)
Lemma spacing_loop_rank bits off k : ∀ c s cur,
  count_clear bits off k = Some c →
  (k ≤ length cur)%nat →
  Z.of_nat k ≤ Int.int_max →
  ∃ final,
    spacing_loop bits off k (count_set bits off k) (mkMem s cur)
      = (Returned (rank_moves bits off k), mkMem s final)
    ∧ length final = length cur
    ∧ (∀ i, (k ≤ i)%nat → final !! i = cur !! i)
    ∧ (∀ i, (i < k)%nat → valid_slot bits off (Z.of_nat i) = Some true →
         final !! i = cur !! Z.to_nat (count_set bits off i))
    ∧ (∀ i, (i < k)%nat → valid_slot bits off (Z.of_nat i) = Some false →
         final !! i = cur !! i).
Proof.
  induction k as [|k IH]; intros c s cur Hc Hlen Hmax.
  { exists cur. simpl. repeat split; try done; intros; lia. }
  apply count_clear_S in Hc as (c' & b & Hc' & Hb & _).
  pose proof (count_set_bounds bits off k) as Hcs.
  simpl. rewrite Hb. destruct b.
  - (* slot k is non-null: it receives the entry at its rank *)
    assert (Int.sub32 (count_set bits off k + 1) 1 = count_set bits off k) as ->.
    { rewrite sub32_exact; [lia|]. pose proof int_min_neg. lia. }
    destruct (lookup_lt_is_Some_2 cur (Z.to_nat (count_set bits off k)))
      as [v Hv]; [lia|].
    rewrite (bind_Returned _ _ _ v (mkMem s cur))
      by (apply load_in_range; [lia|done]).
    rewrite (bind_Returned _ _ _ () (mkMem s (<[Z.to_nat (Z.of_nat k) := v]> cur)))
      by (apply store_in_range; lia).
    rewrite Nat2Z.id.
    destruct (IH c' s (<[k := v]> cur)) as (final & Hrun & Hl & Hge & Hset & Hclr);
      [done | rewrite length_insert; lia | lia |].
    exists final. rewrite (bind_Returned _ _ _ _ _ Hrun).
    split; [done|]. split; [by rewrite Hl, length_insert|].
    split; [|split].
    + intros i Hi. rewrite Hge by lia. apply list_lookup_insert_ne. lia.
    + intros i Hi Hbi. destruct (decide (i = k)) as [->|Hne].
      * rewrite Hge by lia. rewrite list_lookup_insert_eq by lia. done.
      * rewrite Hset by (done || lia).
        apply list_lookup_insert_ne.
        pose proof (count_set_bounds bits off i). lia.
    + intros i Hi Hbi. destruct (decide (i = k)) as [->|Hne]; [congruence|].
      rewrite Hclr by (done || lia). apply list_lookup_insert_ne. lia.
  - (* slot k is null: no move *)
    rewrite Z.add_0_r.
    destruct (IH c' s cur) as (final & Hrun & Hl & Hge & Hset & Hclr);
      [done | lia | lia |].
    exists final. split; [done|]. split; [done|].
    split; [|split].
    + intros i Hi. apply Hge. lia.
    + intros i Hi Hbi. destruct (decide (i = k)) as [->|Hne]; [congruence|].
      apply Hset; [lia|done].
    + intros i Hi Hbi. destruct (decide (i = k)) as [->|Hne].
      * apply Hge. lia.
      * apply Hclr; [lia|done].
Qed.

(** The loop has no [throw]: it ends normally or on an access out of range. *)
Lemma spacing_loop_never_throws bits off k : ∀ (z : Z) m e,
  (spacing_loop bits off k z m).1 ≠ Thrown e.
Proof.
  induction k as [|k IH]; intros z m e; simpl; [done|].
  destruct (valid_slot bits off (Z.of_nat k)) as [[]|]; [| apply IH | done].
  unfold mbind, Call_bind, load, store.
  case_bool_decide; [|done].
  destruct (buffer m !! Z.to_nat (Int.sub32 z 1)) as [v|]; [|done].
  simpl. case_bool_decide; [|done].
  specialize (IH (Int.sub32 z 1)
    (mkMem (self m) (<[Z.to_nat (Z.of_nat k) := v]> (buffer m))) e).
  destruct (spacing_loop _ _ _ _ _) as [[log|e'|] m']; simpl in *; done.
Qed.

(** ** The moves *)

Lemma rank_moves_elem bits off k (mv : Z * Z) :
  mv ∈ rank_moves bits off k →
  ∃ i, (i < k)%nat ∧ mv = (Z.of_nat i, count_set bits off i)
       ∧ valid_slot bits off (Z.of_nat i) = Some true.
Proof.
  induction k as [|k IH]; simpl; [by intros ?%elem_of_nil|].
  destruct (valid_slot bits off (Z.of_nat k)) as [[]|] eqn:Hb.
  - intros [->|Hin]%elem_of_cons.
    + exists k. split; [lia|done].
    + destruct (IH Hin) as (i & ? & ? & ?). exists i. split; [lia|done].
  - intros Hin. destruct (IH Hin) as (i & ? & ? & ?). exists i. split; [lia|done].
  - intros Hin. destruct (IH Hin) as (i & ? & ? & ?). exists i. split; [lia|done].
Qed.

(** Destinations decrease strictly along the log. *)
Lemma rank_moves_descend bits off k j1 j2 (mv1 mv2 : Z * Z) :
  rank_moves bits off k !! j1 = Some mv1 →
  rank_moves bits off k !! j2 = Some mv2 →
  (j1 < j2)%nat → mv2.1 < mv1.1.
Proof.
  revert j1 j2. induction k as [|k IH]; intros j1 j2; simpl; [done|].
  destruct (valid_slot bits off (Z.of_nat k)) as [[]|]; try apply IH.
  destruct j1 as [|j1], j2 as [|j2]; try lia; simpl.
  - intros [= <-] H2 _. simpl.
    apply list_elem_of_lookup_2, rank_moves_elem in H2 as (i & Hi & -> & _).
    simpl. lia.
  - intros H1 H2 Hlt. apply (IH j1 j2); [done|done|lia].
Qed.

(** ** A pattern without nulls *)

Lemma all_set_count_clear bits off k :
  (∀ i, (i < k)%nat → valid_slot bits off (Z.of_nat i) = Some true) →
  count_clear bits off k = Some 0.
Proof.
  induction k as [|k IH]; intros Hall; simpl; [done|].
  rewrite IH by (intros; apply Hall; lia). by rewrite Hall by lia.
Qed.

Lemma all_set_count_set bits off k :
  (∀ i, (i < k)%nat → valid_slot bits off (Z.of_nat i) = Some true) →
  count_set bits off k = Z.of_nat k.
Proof.
  intros Hall. rewrite (count_clear_set bits off k 0); [lia|].
  by apply all_set_count_clear.
Qed.

Lemma all_set_rank_moves bits off k :
  (∀ i, (i < k)%nat → valid_slot bits off (Z.of_nat i) = Some true) →
  rank_moves bits off k
    = (λ i, (Z.of_nat i, Z.of_nat i)) <$> reverse (seq 0 k).
Proof.
  induction k as [|k IH]; intros Hall; [done|].
  rewrite seq_S, reverse_snoc, fmap_cons. cbn [rank_moves].
  rewrite Hall by lia.
  rewrite all_set_count_set by (intros; apply Hall; lia).
  by rewrite IH by (intros; apply Hall; lia).
Qed.

(** ** [DecodeSpaced], by what [Decode] did *)

Lemma DecodeSpaced_after_throw K m m1 e (n nc : Z) bits off :
  Decode K (Int.sub32 n nc) m = (Thrown e, m1) →
  DecodeSpaced K n nc bits off m = (Thrown e, m1).
Proof. intros H. unfold DecodeSpaced. by apply bind_Thrown. Qed.

Lemma DecodeSpaced_after_mismatch K m m1 (v n nc : Z) bits off :
  Decode K (Int.sub32 n nc) m = (Returned v, m1) →
  v ≠ Int.sub32 n nc →
  DecodeSpaced K n nc bits off m = (Thrown count_mismatch, m1).
Proof.
  intros H Hv. unfold DecodeSpaced. rewrite (bind_Returned _ _ _ _ _ H).
  by rewrite bool_decide_eq_true_2.
Qed.

Lemma DecodeSpaced_after_match K m m1 (n nc : Z) bits off :
  Decode K (Int.sub32 n nc) m = (Returned (Int.sub32 n nc), m1) →
  DecodeSpaced K n nc bits off m
  = (spacing_loop bits off (Z.to_nat (Int.sub32 n 1 + 1)) (Int.sub32 n nc)
       ≫= λ _, mret n) m1.
Proof.
  intros H. unfold DecodeSpaced. rewrite (bind_Returned _ _ _ _ _ H).
  by rewrite bool_decide_eq_false_2 by (intros Hne; by apply Hne).
Qed.

(** C1 (as amended). For an output buffer of [num_values] entries, a null
    pattern whose [num_values] addressed bits have exactly [null_count] clear,
    and a dense decode that supplies [num_values - null_count] values [vals]
    at the front of the buffer and leaves the rest alone, [DecodeSpaced]
    returns [num_values]; every non-null slot holds the dense value at its
    rank (the number of non-null slots before it), so the dense values keep
    their order; a null slot at index [num_values - null_count] or above
    holds what the caller put there; a null slot below that index holds the
    dense value the dense decode wrote at that index. *)
Theorem DecodeSpaced_spaces_dense_run K s s' buf vals
    (num_values null_count : Z) bits off :
  Z.of_nat (length buf) = num_values →
  num_values ≤ Int.int_max →
  count_clear bits off (length buf) = Some null_count →
  Z.of_nat (length vals) = num_values - null_count →
  Decode K (num_values - null_count) (mkMem s buf)
    = (Returned (num_values - null_count),
       mkMem s' (vals ++ drop (length vals) buf)) →
  ∃ final,
    DecodeSpaced K num_values null_count bits off (mkMem s buf)
      = (Returned num_values, mkMem s' final)
    ∧ length final = length buf
    ∧ (∀ i, (i < length buf)%nat →
         valid_slot bits off (Z.of_nat i) = Some true →
         final !! i = vals !! Z.to_nat (count_set bits off i)
         ∧ is_Some (final !! i))
    ∧ (∀ i, (i < length buf)%nat →
         valid_slot bits off (Z.of_nat i) = Some false →
         (length vals ≤ i)%nat → final !! i = buf !! i)
    ∧ (∀ i, (i < length buf)%nat →
         valid_slot bits off (Z.of_nat i) = Some false →
         (i < length vals)%nat → final !! i = vals !! i).
Proof.
  intros Hn Hmax Hnull Hvals Hdense.
  pose proof (count_clear_bounds _ _ _ _ Hnull) as Hnc.
  pose proof (count_clear_set _ _ _ _ Hnull) as Hcs.
  pose proof int_min_neg as Hmin.
  assert (Int.sub32 num_values null_count = num_values - null_count) as Hsub
    by (apply sub32_exact; lia).
  assert (Z.to_nat (Int.sub32 num_values 1 + 1) = length buf) as Hk
    by (rewrite sub32_exact by lia; lia).
  rewrite <- Hsub in Hdense.
  rewrite (DecodeSpaced_after_match _ _ _ _ _ _ _ Hdense), Hk, Hsub.
  assert (length (vals ++ drop (length vals) buf) = length buf) as Hlen
    by (rewrite length_app, length_drop; lia).
  destruct (spacing_loop_rank bits off (length buf) null_count s'
              (vals ++ drop (length vals) buf))
    as (final & Hrun & Hl & _ & Hset & Hclr); [done | lia | lia |].
  replace (num_values - null_count) with (count_set bits off (length buf)) by lia.
  exists final. rewrite (bind_Returned _ _ _ _ _ Hrun).
  split; [done|]. split; [congruence|]. split; [|split].
  - intros i Hi Hb.
    pose proof (count_set_lt bits off i (length buf) Hi Hb).
    pose proof (count_set_bounds bits off i).
    rewrite (Hset i Hi Hb), lookup_app_l by lia.
    split; [done|]. apply lookup_lt_is_Some_2. lia.
  - intros i Hi Hb Hge. rewrite (Hclr i Hi Hb), lookup_app_r by done.
    rewrite lookup_drop. f_equal. lia.
  - intros i Hi Hb Hlt. by rewrite (Hclr i Hi Hb), lookup_app_l.
Qed.

(** The guard of [DecodeSpaced]: when [Decode] returns [v], the count
    mismatch is raised exactly when [v] is not the count asked for, and a
    return means the counts matched. *)
Lemma DecodeSpaced_guard K m m1 (v n nc : Z) bits off :
  Decode K (Int.sub32 n nc) m = (Returned v, m1) →
  ((DecodeSpaced K n nc bits off m).1 = Thrown count_mismatch
     ↔ v ≠ Int.sub32 n nc)
  ∧ (∀ r, (DecodeSpaced K n nc bits off m).1 = Returned r →
       v = Int.sub32 n nc ∧ r = n).
Proof.
  intros Hdec. split; [split|].
  - intros Hthrow ->.
    rewrite (DecodeSpaced_after_match _ _ _ _ _ _ _ Hdec) in Hthrow.
    unfold mbind, Call_bind in Hthrow.
    pose proof (spacing_loop_never_throws bits off
      (Z.to_nat (Int.sub32 n 1 + 1)) (Int.sub32 n nc) m1 count_mismatch) as Hnt.
    destruct (spacing_loop _ _ _ _ _) as [[log|e|] m2]; simpl in *; congruence.
  - intros Hne. by rewrite (DecodeSpaced_after_mismatch _ _ _ _ _ _ _ _ Hdec Hne).
  - intros r Hr. destruct (decide (v = Int.sub32 n nc)) as [->|Hne].
    + split; [done|].
      rewrite (DecodeSpaced_after_match _ _ _ _ _ _ _ Hdec) in Hr.
      unfold mbind, Call_bind in Hr.
      destruct (spacing_loop _ _ _ _ _) as [[log|e|] m2]; simpl in Hr;
        [|done|done].
      unfold mret, Call_ret in Hr. simpl in Hr. congruence.
    + rewrite (DecodeSpaced_after_mismatch _ _ _ _ _ _ _ _ Hdec Hne) in Hr. done.
Qed.

(** C3. For a dense decode that keeps the contract of [Decode] and returns
    at most the count it was asked for, [num_values - null_count]:
    [DecodeSpaced] raises the decode-count-mismatch error if and only if the
    dense decode returned fewer values than that; and when [DecodeSpaced]
    succeeds no such error is raised, the dense decode having returned
    exactly that count. *)
Theorem DecodeSpaced_mismatch_iff_fewer K m m1 (v n nc : Z) bits off :
  Decode K (Int.sub32 n nc) m = (Returned v, m1) →
  v ≤ Int.sub32 n nc →
  ((DecodeSpaced K n nc bits off m).1 = Thrown count_mismatch
     ↔ v < Int.sub32 n nc)
  ∧ (∀ r, (DecodeSpaced K n nc bits off m).1 = Returned r →
       (DecodeSpaced K n nc bits off m).1 ≠ Thrown count_mismatch
       ∧ v = Int.sub32 n nc ∧ r = n).
Proof.
  intros Hdec Hle.
  destruct (DecodeSpaced_guard K m m1 v n nc bits off Hdec) as [Hiff Hret].
  split.
  - rewrite Hiff. lia.
  - intros r Hr. split; [by rewrite Hr | by apply Hret].
Qed.

(** C4. When the dense decode returned [k], fewer than the
    [num_values - null_count] asked for, having written only slots below
    [k]: [DecodeSpaced] ends with the decode-count-mismatch error and no
    count; the buffer is as the dense decode left it, the redistribution
    pass not having run; and every slot at index [k] or above is as the
    caller provided it. *)
Theorem DecodeSpaced_mismatch_writes_nothing K s s' buf buf'
    (k n nc : Z) bits off :
  Decode K (Int.sub32 n nc) (mkMem s buf) = (Returned k, mkMem s' buf') →
  k < Int.sub32 n nc →
  (∀ i, k ≤ Z.of_nat i → buf' !! i = buf !! i) →
  ∃ final,
    DecodeSpaced K n nc bits off (mkMem s buf)
      = (Thrown count_mismatch, mkMem s' final)
    ∧ final = buf'
    ∧ (∀ i, k ≤ Z.of_nat i → final !! i = buf !! i).
Proof.
  intros Hdec Hk Hrest. exists buf'.
  rewrite (DecodeSpaced_after_mismatch _ _ _ _ _ _ _ _ Hdec) by lia.
  done.
Qed.

(** On a pattern without nulls the loop moves every slot onto itself, from
    the last to the first, and leaves the buffer as it was. *)
Lemma spacing_loop_all_set s cur bits off k :
  (∀ i, (i < k)%nat → valid_slot bits off (Z.of_nat i) = Some true) →
  (k ≤ length cur)%nat →
  Z.of_nat k ≤ Int.int_max →
  spacing_loop bits off k (Z.of_nat k) (mkMem s cur)
  = (Returned ((λ i, (Z.of_nat i, Z.of_nat i)) <$> reverse (seq 0 k)),
     mkMem s cur).
Proof.
  intros Hall Hlen Hmax.
  destruct (spacing_loop_rank bits off k 0 s cur)
    as (final & Hrun & Hl & Hge & Hset & _);
    [by apply all_set_count_clear | done | done |].
  rewrite all_set_count_set, all_set_rank_moves in Hrun by done.
  rewrite Hrun. do 2 f_equal. apply list_eq. intros i.
  destruct (decide (i < k)%nat) as [Hi|Hi].
  - rewrite (Hset i Hi) by (by apply Hall).
    rewrite all_set_count_set by (intros; apply Hall; lia).
    by rewrite Nat2Z.id.
  - apply Hge. lia.
Qed.

(** C7. With [null_count = 0] and all [num_values] addressed bits set,
    [DecodeSpaced] leaves exactly the buffer and the members (so the
    remaining-value counter) that [Decode] of [num_values] values leaves, and
    returns [num_values] when [Decode] does; the redistribution pass moves
    every slot onto itself, once each, and changes nothing. *)
Theorem DecodeSpaced_without_nulls_is_Decode K m (num_values : Z) bits off :
  0 ≤ num_values ≤ Int.int_max →
  (∀ i, (i < Z.to_nat num_values)%nat →
     valid_slot bits off (Z.of_nat i) = Some true) →
  num_values ≤ Z.of_nat (length (buffer (Decode K num_values m).2)) →
  (DecodeSpaced K num_values 0 bits off m).2 = (Decode K num_values m).2
  ∧ ((Decode K num_values m).1 = Returned num_values →
     (DecodeSpaced K num_values 0 bits off m).1 = Returned num_values)
  ∧ (∀ s cur, num_values ≤ Z.of_nat (length cur) →
       spacing_loop bits off (Z.to_nat (Int.sub32 num_values 1 + 1))
         num_values (mkMem s cur)
       = (Returned ((λ i, (Z.of_nat i, Z.of_nat i))
                      <$> reverse (seq 0 (Z.to_nat num_values))),
          mkMem s cur)).
Proof.
  intros Hn Hall Hlen.
  pose proof int_min_neg as Hmin.
  assert (Int.sub32 num_values 0 = num_values) as Hsub
    by (rewrite sub32_exact; lia).
  assert (Z.to_nat (Int.sub32 num_values 1 + 1) = Z.to_nat num_values) as Hk
    by (rewrite sub32_exact by lia; lia).
  assert (∀ s cur, num_values ≤ Z.of_nat (length cur) →
       spacing_loop bits off (Z.to_nat (Int.sub32 num_values 1 + 1))
         num_values (mkMem s cur)
       = (Returned ((λ i, (Z.of_nat i, Z.of_nat i))
                      <$> reverse (seq 0 (Z.to_nat num_values))),
          mkMem s cur)) as Hloop.
  { intros s cur Hcur. rewrite Hk.
    rewrite <- (Z2Nat.id num_values) at 2 by lia.
    apply spacing_loop_all_set; [done | lia | lia]. }
  split; [|split; [|done]].
  - destruct (Decode K num_values m) as [[v|e|] [s1 buf1]] eqn:Hdec;
      simpl in Hlen |- *.
    + destruct (decide (v = num_values)) as [->|Hne].
      * rewrite <- Hsub in Hdec at 1 2.
        rewrite (DecodeSpaced_after_match _ _ _ _ _ _ _ Hdec), Hsub.
        by rewrite (bind_Returned _ _ _ _ _ (Hloop s1 buf1 Hlen)).
      * rewrite <- Hsub in Hdec at 1. rewrite <- Hsub in Hne.
        by rewrite (DecodeSpaced_after_mismatch _ _ _ _ _ _ _ _ Hdec Hne).
    + rewrite <- Hsub in Hdec.
      by rewrite (DecodeSpaced_after_throw _ _ _ _ _ _ _ _ Hdec).
    + rewrite <- Hsub in Hdec. unfold DecodeSpaced.
      by rewrite (bind_Undefined _ _ _ _ Hdec).
  - intros Hret.
    destruct (Decode K num_values m) as [r [s1 buf1]] eqn:Hdec;
      simpl in Hlen, Hret. subst r.
    rewrite <- Hsub in Hdec at 1 2.
    rewrite (DecodeSpaced_after_match _ _ _ _ _ _ _ Hdec), Hsub.
    by rewrite (bind_Returned _ _ _ _ _ (Hloop s1 buf1 Hlen)).
Qed.

(** Without an override, dispatch reaches the base class's body. *)
Lemma Decode_inherited K :
  Decode_override K = None → Decode K = Decode_base.
Proof. intros H. unfold Decode. by rewrite H. Qed.

(** C8. A decoder whose class does not override [Decode] gets the base
    class's: for every buffer and every [max_values] it raises the
    unsupported-operation error and decodes nothing. *)
Theorem Decode_base_unsupported K (max_values : Z) m :
  Decode_override K = None →
  Decode K max_values m = (Thrown not_implemented, m).
Proof. intros H. by rewrite (Decode_inherited K H). Qed.

(** C9. [encoding()] returns the tag given to the constructor after any
    sequence of [SetData], [Decode] and [DecodeSpaced] calls, and no such
    call changes what it returns. *)
Theorem encoding_fixed_at_construction K
    (descr : ColumnDescriptor) (enc : EncodingType) (init : Derived)
    (qs : list (request T)) :
  encoding (serve_all K (mkDecoder descr enc init) qs) = enc
  ∧ ∀ (d : Decoder ColumnDescriptor EncodingType Derived) (q : request T),
      encoding (serve K d q) = encoding d.
Proof.
  assert (∀ (d : Decoder ColumnDescriptor EncodingType Derived) (q : request T),
            encoding (serve K d q) = encoding d) as Hstep.
  { intros d [n data len | buf max_values | buf n nc bits off];
      unfold serve, call_SetData, call_on.
    - by destruct (SetData K n data len (members d)).
    - by destruct (Decode K max_values _).
    - by destruct (DecodeSpaced_virtual K n nc bits off _). }
  split; [|done].
  unfold serve_all.
  change enc with (encoding (mkDecoder descr enc init)) at 2.
  generalize (mkDecoder descr enc init).
  induction qs as [|q qs IH]; intros d; simpl; [done|].
  by rewrite IH, Hstep.
Qed.

(** C10. The default [DecodeSpaced] calls [Decode] before anything else,
    whatever [num_values - null_count] is; so on a decoder whose class does
    not override [Decode] it raises the unsupported-operation error for
    every input, an all-null request ([null_count = num_values]) included,
    and returns no count. *)
Theorem DecodeSpaced_unsupported_when_inherited K (n nc : Z) bits off m :
  Decode_override K = None →
  DecodeSpaced K n nc bits off m = (Thrown not_implemented, m)
  ∧ DecodeSpaced K n n bits off m = (Thrown not_implemented, m).
Proof.
  intros H. split; apply DecodeSpaced_after_throw;
    by rewrite (Decode_inherited K H).
Qed.

End Facts.

(** ** The concrete encoding *)

Section DenseFacts.

Context {T ColumnDescriptor EncodingType : Type}.
Variable values_of : list Z → list T.

Implicit Types (d : Decoder ColumnDescriptor EncodingType (list T)).
Implicit Types (buf : list T).

(** C5. On a page with [values_left d] values remaining, [Decode] of
    [max_values], at most that many, into an output region that holds them
    returns exactly [max_values] and decreases [values_left] by it; and
    whatever is asked, the count returned is never more than what remained
    and [values_left] decreases by the count returned. *)
Theorem Dense_Decode_returns_max_values d buf (max_values : Z) :
  max_values ≤ values_left d →
  max_values ≤ Z.of_nat (length buf) →
  (∃ d' buf',
     call_on (Decode (Dense.encoding_class values_of) max_values) d buf
       = (Returned max_values, d', buf')
     ∧ max_values ≤ values_left d
     ∧ values_left d' = values_left d - max_values)
  ∧ (∀ asked w d' buf',
       call_on (Decode (Dense.encoding_class values_of) asked) d buf
         = (Returned w, d', buf') →
       w ≤ values_left d ∧ values_left d' = values_left d - w).
Proof.
  intros Hle Hbuf. split.
  - unfold call_on, Decode, Dense.encoding_class, Dense.Decode, values_left.
    simpl. rewrite (bool_decide_eq_true_2 _ Hle).
    rewrite (bool_decide_eq_true_2 _ Hbuf). simpl. eauto.
  - intros asked w d' buf'.
    unfold call_on, Decode, Dense.encoding_class, Dense.Decode, values_left.
    simpl. repeat case_bool_decide; simpl; intros [= <- <- <-]; simpl; lia.
Qed.

(** C6. After [SetData(count, data, len)], [values_left()] is [count],
    whatever the object held before, and so also when the call follows any
    earlier calls that left a page partly read. *)
Theorem SetData_resets_values_left d (count : Z) (data : list Z) (len : Z)
    (earlier : list (request T)) :
  values_left
    (call_SetData (Dense.encoding_class values_of) count data len d).2 = count
  ∧ values_left (serve_all (Dense.encoding_class values_of) d
                   (earlier ++ [ReqSetData count data len])) = count.
Proof.
  split; [done|].
  unfold serve_all. by rewrite foldl_app.
Qed.

End DenseFacts.

(** ** The theorems at the sample inputs *)

Section SampleFacts.

Import Samples.

Lemma DecodeSpaced_spaces_dense_run_witness :
  ∃ final,
    DecodeSpaced bytewise 5 2 pattern_10101 0 (mkMem page_ABC caller_slots)
      = (Returned 5, mkMem drained final)
    ∧ length final = length caller_slots
    ∧ (∀ i, (i < length caller_slots)%nat →
         valid_slot pattern_10101 0 (Z.of_nat i) = Some true →
         final !! i = [10; 20; 30] !! Z.to_nat (count_set pattern_10101 0 i)
         ∧ is_Some (final !! i))
    ∧ (∀ i, (i < length caller_slots)%nat →
         valid_slot pattern_10101 0 (Z.of_nat i) = Some false →
         (length [10; 20; 30] ≤ i)%nat → final !! i = caller_slots !! i)
    ∧ (∀ i, (i < length caller_slots)%nat →
         valid_slot pattern_10101 0 (Z.of_nat i) = Some false →
         (i < length [10; 20; 30])%nat → final !! i = [10; 20; 30] !! i).
Proof.
  apply (DecodeSpaced_spaces_dense_run bytewise page_ABC drained caller_slots
           [10; 20; 30] 5 2 pattern_10101 0).
  - reflexivity.
  - by vm_compute.
  - reflexivity.
  - reflexivity.
  - reflexivity.
Defined.

(** C1 as stated fails on the spec's own example: pattern [1,0,1,0,1], dense
    values [A, B, C]. The result is [A, B, B, _, C]: null slot 1 holds [B],
    written there by the dense decode, not what the caller put there. *)
Lemma DecodeSpaced_null_slot_keeps_dense_value :
  Z.of_nat (length caller_slots) = 5
  ∧ count_clear pattern_10101 0 (length caller_slots) = Some 2
  ∧ Decode bytewise (5 - 2) (mkMem page_ABC caller_slots)
      = (Returned (5 - 2), mkMem drained ([10; 20; 30] ++ drop 3 caller_slots))
  ∧ DecodeSpaced bytewise 5 2 pattern_10101 0 (mkMem page_ABC caller_slots)
      = (Returned 5, mkMem drained [10; 20; 20; 94; 30])
  ∧ valid_slot pattern_10101 0 1 = Some false
  ∧ [10; 20; 20; 94; 30] !! 1%nat ≠ caller_slots !! 1%nat.
Proof. by vm_compute. Qed.

Lemma DecodeSpaced_mismatch_iff_fewer_witness :
  ((DecodeSpaced bytewise 5 2 pattern_10101 0 (mkMem page_AB caller_slots)).1
     = Thrown count_mismatch ↔ 2 < Int.sub32 5 2)
  ∧ (∀ r, (DecodeSpaced bytewise 5 2 pattern_10101 0
             (mkMem page_AB caller_slots)).1 = Returned r →
       (DecodeSpaced bytewise 5 2 pattern_10101 0
          (mkMem page_AB caller_slots)).1 ≠ Thrown count_mismatch
       ∧ 2 = Int.sub32 5 2 ∧ r = 5).
Proof.
  apply (DecodeSpaced_mismatch_iff_fewer bytewise
           (mkMem page_AB caller_slots)
           (mkMem drained [10; 20; 93; 94; 95]) 2 5 2 pattern_10101 0).
  - reflexivity.
  - by vm_compute.
Defined.

Lemma DecodeSpaced_mismatch_writes_nothing_witness :
  ∃ final,
    DecodeSpaced bytewise 5 2 pattern_10101 0 (mkMem page_AB caller_slots)
      = (Thrown count_mismatch, mkMem drained final)
    ∧ final = [10; 20; 93; 94; 95]
    ∧ (∀ i, 2 ≤ Z.of_nat i → final !! i = caller_slots !! i).
Proof.
  apply (DecodeSpaced_mismatch_writes_nothing bytewise page_AB drained
           caller_slots [10; 20; 93; 94; 95] 2 5 2 pattern_10101 0).
  - reflexivity.
  - reflexivity.
  - intros [|[|i]] Hi; [lia | lia | reflexivity].
Defined.

Lemma Dense_Decode_returns_max_values_witness :
  (∃ d' buf',
     call_on (Decode bytewise 2) (mkObject () () page_ABC) caller_slots
       = (Returned 2, d', buf')
     ∧ 2 ≤ values_left (mkObject () () page_ABC)
     ∧ values_left d' = values_left (mkObject () () page_ABC) - 2)
  ∧ (∀ asked w d' buf',
       call_on (Decode bytewise asked) (mkObject () () page_ABC) caller_slots
         = (Returned w, d', buf') →
       w ≤ values_left (mkObject () () page_ABC)
       ∧ values_left d' = values_left (mkObject () () page_ABC) - w).
Proof.
  apply (Dense_Decode_returns_max_values (λ data, data)
           (mkObject () () page_ABC) caller_slots 2).
  - by vm_compute.
  - by vm_compute.
Defined.

Lemma DecodeSpaced_without_nulls_is_Decode_witness :
  (DecodeSpaced bytewise 3 0 pattern_all_set 0 (mkMem page_ABC [91; 92; 93])).2
    = (Decode bytewise 3 (mkMem page_ABC [91; 92; 93])).2
  ∧ ((Decode bytewise 3 (mkMem page_ABC [91; 92; 93])).1 = Returned 3 →
     (DecodeSpaced bytewise 3 0 pattern_all_set 0
        (mkMem page_ABC [91; 92; 93])).1 = Returned 3)
  ∧ (∀ (s : Members (list Z)) (cur : list Z), 3 ≤ Z.of_nat (length cur) →
       spacing_loop pattern_all_set 0 (Z.to_nat (Int.sub32 3 1 + 1)) 3
         (mkMem s cur)
       = (Returned ((λ i, (Z.of_nat i, Z.of_nat i))
                      <$> reverse (seq 0 (Z.to_nat 3))),
          mkMem s cur)).
Proof.
  apply (DecodeSpaced_without_nulls_is_Decode bytewise
           (mkMem page_ABC [91; 92; 93]) 3 pattern_all_set 0).
  - by vm_compute.
  - intros [|[|[|i]]] Hi; [reflexivity | reflexivity | reflexivity |].
    simpl in Hi. lia.
  - by vm_compute.
Defined.

Lemma Decode_base_unsupported_witness :
  Decode inheriting 3 (mkMem (mkMembers 3 ()) caller_slots)
    = (Thrown not_implemented, mkMem (mkMembers 3 ()) caller_slots).
Proof. apply (Decode_base_unsupported inheriting). reflexivity. Defined.

Lemma DecodeSpaced_unsupported_when_inherited_witness :
  DecodeSpaced inheriting 5 2 pattern_10101 0
    (mkMem (mkMembers 3 ()) caller_slots)
    = (Thrown not_implemented, mkMem (mkMembers 3 ()) caller_slots)
  ∧ DecodeSpaced inheriting 5 5 pattern_10101 0
      (mkMem (mkMembers 3 ()) caller_slots)
    = (Thrown not_implemented, mkMem (mkMembers 3 ()) caller_slots).
Proof.
  apply (DecodeSpaced_unsupported_when_inherited inheriting 5 2 pattern_10101 0).
  reflexivity.
Defined.

End SampleFacts.

(** ** The spacing loop on any pattern and any cursor *)

Section LoopFacts.

Context {T Derived : Type}.

Implicit Types (K : Subclass T Derived) (m : Mem T Derived).
Implicit Types (bits : list Z) (off vtm : Z) (k i j : nat).
Implicit Types (log : list (Z * Z)).

(** One iteration that ends normally: either the slot is null and nothing
    happens, or it is non-null, the cursor steps down onto an entry of the
    buffer, and that entry is stored in the slot. *)
Lemma spacing_loop_step bits off k vtm m log m' :
  spacing_loop bits off (S k) vtm m = (Returned log, m') →
  (valid_slot bits off (Z.of_nat k) = Some false
   ∧ spacing_loop bits off k vtm m = (Returned log, m'))
  ∨ (valid_slot bits off (Z.of_nat k) = Some true
     ∧ ∃ v log',
         0 ≤ Int.sub32 vtm 1
         ∧ buffer m !! Z.to_nat (Int.sub32 vtm 1) = Some v
         ∧ (k < length (buffer m))%nat
         ∧ spacing_loop bits off k (Int.sub32 vtm 1)
             (mkMem (self m) (<[k := v]> (buffer m))) = (Returned log', m')
         ∧ log = (Z.of_nat k, Int.sub32 vtm 1) :: log').
Proof.
  simpl. destruct (valid_slot bits off (Z.of_nat k)) as [[]|]; [| by left | done].
  intros Hrun. right. split; [done|].
  unfold mbind, Call_bind, load, store in Hrun.
  case_bool_decide as Hz; [|done].
  destruct (buffer m !! Z.to_nat (Int.sub32 vtm 1)) as [v|] eqn:Hv; [|done].
  simpl in Hrun. case_bool_decide as Hk; [|done].
  rewrite Nat2Z.id in Hrun.
  destruct (spacing_loop bits off k _ _) as [[log'|e|] m2] eqn:Hrest;
    simpl in Hrun; [|done|done].
  unfold mret, Call_ret in Hrun. injection Hrun as <- <-.
  exists v, log'. repeat split; [done | lia | done].
Qed.

(** The cursor does not wrap when it steps onto an entry of the buffer. *)
Lemma cursor_step vtm :
  Int.int_min < vtm ≤ Int.int_max → Int.sub32 vtm 1 = vtm - 1.
Proof. intros H. apply sub32_exact. pose proof int_max_pos. lia. Qed.

(** What a normal end of the loop leaves alone. *)
Lemma spacing_loop_frame bits off k : ∀ vtm m log m',
  spacing_loop bits off k vtm m = (Returned log, m') →
  self m' = self m
  ∧ length (buffer m') = length (buffer m)
  ∧ (∀ i, (k ≤ i)%nat → buffer m' !! i = buffer m !! i)
  ∧ (∀ i, (i < k)%nat → valid_slot bits off (Z.of_nat i) = Some false →
       buffer m' !! i = buffer m !! i)
  ∧ (∀ i, (i < k)%nat → is_Some (valid_slot bits off (Z.of_nat i))).
Proof.
  induction k as [|k IH]; intros vtm m log m' Hrun.
  { simpl in Hrun. injection Hrun as <- <-.
    repeat split; try done; try lia; intros; lia. }
  apply spacing_loop_step in Hrun
    as [[Hb Hrun] | [Hb (v & log' & Hz & Hv & Hk & Hrun & ->)]];
    apply IH in Hrun as (Hs & Hl & Hge & Hclr & Hcov); simpl in *.
  - repeat split; try done.
    + intros i Hi. apply Hge. lia.
    + intros i Hi Hbi. destruct (decide (i = k)) as [->|]; [apply Hge; lia|].
      apply Hclr; [lia|done].
    + intros i Hi. destruct (decide (i = k)) as [->|]; [eauto|]. apply Hcov. lia.
  - rewrite length_insert in Hl. repeat split; try done.
    + intros i Hi. rewrite Hge by lia. apply list_lookup_insert_ne. lia.
    + intros i Hi Hbi. destruct (decide (i = k)) as [->|]; [congruence|].
      rewrite Hclr by (done || lia). apply list_lookup_insert_ne. lia.
    + intros i Hi. destruct (decide (i = k)) as [->|]; [eauto|]. apply Hcov. lia.
Qed.

(** The moves of a normal end: one per non-null slot, the last slot first,
    the cursor one lower at each. *)
Lemma spacing_loop_log bits off k : ∀ vtm m log m',
  Int.int_min < vtm ≤ Int.int_max →
  spacing_loop bits off k vtm m = (Returned log, m') →
  log.*1 = valid_slots bits off k
  ∧ Z.of_nat (length log) = count_set bits off k
  ∧ (count_set bits off k = 0 ∨ count_set bits off k ≤ vtm)
  ∧ (∀ j dst src, log !! j = Some (dst, src) →
       src = vtm - 1 - Z.of_nat j
       ∧ 0 ≤ src < Z.of_nat (length (buffer m))).
Proof.
  induction k as [|k IH]; intros vtm m log m' Hvtm Hrun.
  { simpl in Hrun. injection Hrun as <- <-. simpl.
    repeat split; try done; by left. }
  apply spacing_loop_step in Hrun
    as [[Hb Hrun] | [Hb (v & log' & Hz & Hv & Hk & Hrun & ->)]]; simpl; rewrite Hb.
  - rewrite Z.add_0_r. by apply (IH vtm m log m').
  - rewrite (cursor_step vtm Hvtm) in *.
    apply lookup_lt_Some in Hv.
    apply IH in Hrun as (Hdst & Hlen & Hcnt & Hsrc);
      [|pose proof int_min_neg; lia].
    simpl in Hsrc. rewrite length_insert in Hsrc.
    split; [by rewrite <- Hdst|]. split; [lia|]. split; [lia|].
    intros [|j] dst src; simpl.
    + intros [= <- <-]. lia.
    + intros Hj. apply Hsrc in Hj. lia.
Qed.

(** More non-null slots than the cursor has entries below it: the cursor
    steps off the front of the buffer. *)
Lemma spacing_loop_overrun bits off k vtm m :
  0 ≤ vtm ≤ Int.int_max →
  vtm < count_set bits off k →
  (spacing_loop bits off k vtm m).1 = Undefined.
Proof.
  intros Hvtm Hlt.
  destruct (spacing_loop bits off k vtm m) as [[log|e|] m'] eqn:Hrun; [| |done].
  - apply spacing_loop_log in Hrun as (_ & _ & Hcnt & _);
      [lia | pose proof int_min_neg; lia].
  - pose proof (spacing_loop_never_throws bits off k vtm m e) as Hnt.
    rewrite Hrun in Hnt. done.
Qed.

(** Enough entries below the cursor, and buffer and bitmap large enough: the
    loop ends normally. *)
Lemma spacing_loop_in_bounds bits off k : ∀ vtm (s : Members Derived) (cur : list T),
  (∀ i, (i < k)%nat → is_Some (valid_slot bits off (Z.of_nat i))) →
  (k ≤ length cur)%nat →
  count_set bits off k ≤ vtm ≤ Z.of_nat (length cur) →
  vtm ≤ Int.int_max →
  ∃ log final,
    spacing_loop bits off k vtm (mkMem s cur) = (Returned log, mkMem s final).
Proof.
  induction k as [|k IH]; intros vtm s cur Hcov Hk Hvtm Hmax; [by eexists _, _|].
  pose proof (count_set_bounds bits off k) as Hcs.
  destruct (Hcov k) as [b Hb]; [lia|].
  simpl in Hvtm |- *. rewrite Hb in Hvtm |- *. destruct b.
  - rewrite cursor_step by (pose proof int_min_neg; lia).
    destruct (lookup_lt_is_Some_2 cur (Z.to_nat (vtm - 1))) as [v Hv]; [lia|].
    rewrite (bind_Returned _ _ _ v (mkMem s cur))
      by (apply load_in_range; [lia|done]).
    rewrite (bind_Returned _ _ _ () (mkMem s (<[Z.to_nat (Z.of_nat k) := v]> cur)))
      by (apply store_in_range; lia).
    rewrite Nat2Z.id.
    destruct (IH (vtm - 1) s (<[k := v]> cur)) as (log & final & Hrun);
      [intros; apply Hcov; lia | rewrite length_insert; lia
      | rewrite length_insert; lia | lia |].
    exists ((Z.of_nat k, vtm - 1) :: log), final.
    by rewrite (bind_Returned _ _ _ _ _ Hrun).
  - apply IH; [intros; apply Hcov; lia | lia | lia | done].
Qed.

(** No non-null slot: no move, no access to the buffer. *)
Lemma spacing_loop_all_clear bits off k vtm m :
  (∀ i, (i < k)%nat → valid_slot bits off (Z.of_nat i) = Some false) →
  spacing_loop bits off k vtm m = (Returned [], m).
Proof.
  induction k as [|k IH]; intros Hall; simpl; [done|].
  rewrite Hall by lia. apply IH. intros. apply Hall. lia.
Qed.

(** ** [DecodeSpaced], by how it ended *)

Lemma DecodeSpaced_Returned_inv K m (n nc : Z) bits off (r : Z) m' :
  DecodeSpaced K n nc bits off m = (Returned r, m') →
  r = n
  ∧ ∃ m1 log,
      Decode K (Int.sub32 n nc) m = (Returned (Int.sub32 n nc), m1)
      ∧ spacing_loop bits off (Z.to_nat (Int.sub32 n 1 + 1))
          (Int.sub32 n nc) m1 = (Returned log, m').
Proof.
  unfold DecodeSpaced, mbind, Call_bind.
  destruct (Decode K (Int.sub32 n nc) m) as [[v|e|] m1] eqn:Hdec; [|done|done].
  case_bool_decide as Hv; [done|].
  assert (v = Int.sub32 n nc) as ->
    by (destruct (decide (v = Int.sub32 n nc)); done).
  destruct (spacing_loop _ _ _ _ _) as [[log|e|] m2] eqn:Hloop; [|done|done].
  unfold mret, Call_ret. intros [= <- <-]. split; [done|]. by exists m1, log.
Qed.

Lemma DecodeSpaced_Thrown_inv K m (n nc : Z) bits off e m' :
  DecodeSpaced K n nc bits off m = (Thrown e, m') →
  Decode K (Int.sub32 n nc) m = (Thrown e, m')
  ∨ (e = count_mismatch
     ∧ ∃ v, Decode K (Int.sub32 n nc) m = (Returned v, m')
            ∧ v ≠ Int.sub32 n nc).
Proof.
  unfold DecodeSpaced, mbind, Call_bind.
  destruct (Decode K (Int.sub32 n nc) m) as [[v|e1|] m1] eqn:Hdec; [| |done].
  - case_bool_decide as Hv.
    + intros [= <- <-]. right. eauto.
    + pose proof (spacing_loop_never_throws bits off
        (Z.to_nat (Int.sub32 n 1 + 1)) v m1 e) as Hnt.
      destruct (spacing_loop _ _ _ _ _) as [[log|e2|] m2]; [done| |done].
      intros [= -> <-]. done.
  - intros [= <- <-]. by left.
Qed.

End LoopFacts.

(** ** What [DecodeSpaced] guarantees on any pattern *)

Section SpacedFacts.

Context {T ColumnDescriptor EncodingType Derived : Type}.

Implicit Types (K : Subclass T Derived) (m : Mem T Derived).
Implicit Types (bits : list Z) (off : Z) (i j : nat).

Lemma loop_count (n : Z) :
  Int.int_min < n ≤ Int.int_max →
  Z.to_nat (Int.sub32 n 1 + 1) = Z.to_nat n.
Proof.
  intros Hn. rewrite sub32_exact; [f_equal; lia|].
  pose proof int_max_pos. lia.
Qed.

(** C2. In the redistribution pass of [DecodeSpaced], run on a pattern with
    exactly [null_count] clear bits among the [num_values] addressed and
    started with its cursor at [num_values - null_count]: the pass ends
    normally; it makes one move into each non-null slot, from the last such
    slot to the first, [num_values - null_count] moves in all, the [j]-th
    reading source [num_values - null_count - 1 - j]; every move has its
    source index at most its destination index; across moves the source
    index decreases strictly and lies strictly below every earlier
    destination, so no move reads a slot already written; hence every dense
    entry is the source of a move and reaches its destination with the
    content it had when the pass began: none is overwritten before it has
    been relocated. *)
Theorem spacing_moves_never_clobber (s : Members Derived) (cur : list T)
    (num_values null_count : Z) bits off :
  0 ≤ num_values ≤ Int.int_max →
  count_clear bits off (Z.to_nat num_values) = Some null_count →
  num_values ≤ Z.of_nat (length cur) →
  ∃ log final,
    spacing_loop bits off (Z.to_nat (Int.sub32 num_values 1 + 1))
        (Int.sub32 num_values null_count) (mkMem s cur)
      = (Returned log, mkMem s final)
    ∧ log.*1 = valid_slots bits off (Z.to_nat num_values)
    ∧ Z.of_nat (length log) = num_values - null_count
    ∧ (∀ j dst src, log !! j = Some (dst, src) →
         src = num_values - null_count - 1 - Z.of_nat j
         ∧ 0 ≤ src ≤ dst ∧ dst < num_values)
    ∧ (∀ j1 j2 dst1 src1 dst2 src2, (j1 < j2)%nat →
         log !! j1 = Some (dst1, src1) → log !! j2 = Some (dst2, src2) →
         src2 < src1 ∧ src2 < dst1)
    ∧ (∀ j dst src, log !! j = Some (dst, src) →
         final !! Z.to_nat dst = cur !! Z.to_nat src)
    ∧ (∀ src, 0 ≤ src < num_values - null_count →
         ∃ dst, (dst, src) ∈ log
                ∧ src ≤ dst
                ∧ final !! Z.to_nat dst = cur !! Z.to_nat src).
Proof.
  intros Hn Hnull Hlen.
  pose proof (count_clear_bounds _ _ _ _ Hnull) as Hnc.
  pose proof (count_clear_set _ _ _ _ Hnull) as Hcs.
  pose proof int_min_neg as Hmin.
  rewrite loop_count by lia. rewrite sub32_exact by lia.
  replace (num_values - null_count)
    with (count_set bits off (Z.to_nat num_values)) by lia.
  destruct (spacing_loop_rank bits off (Z.to_nat num_values) null_count s cur)
    as (final & Hrun & _ & _ & Hset & _); [done | lia | lia |].
  assert (Int.int_min < count_set bits off (Z.to_nat num_values) ≤ Int.int_max)
    as Hrange
    by (pose proof (count_set_bounds bits off (Z.to_nat num_values)); lia).
  destruct (spacing_loop_log bits off (Z.to_nat num_values) _ _ _ _
              Hrange Hrun) as (Hdst & Hcount & _ & Hsrc).
  set (log := rank_moves bits off (Z.to_nat num_values)) in *.
  assert (∀ j dst src, log !! j = Some (dst, src) →
            ∃ i, (i < Z.to_nat num_values)%nat
                 ∧ dst = Z.of_nat i ∧ src = count_set bits off i
                 ∧ valid_slot bits off (Z.of_nat i) = Some true) as Helem.
  { intros j dst src Hj.
    apply list_elem_of_lookup_2, rank_moves_elem in Hj as (i & Hi & [= -> ->] & Hb).
    eauto. }
  assert (∀ j dst src, log !! j = Some (dst, src) →
            final !! Z.to_nat dst = cur !! Z.to_nat src) as Hmoved.
  { intros j dst src Hj. apply Helem in Hj as (i & Hi & -> & -> & Hb).
    rewrite Nat2Z.id. by apply Hset. }
  exists log, final.
  split; [done|]. split; [done|]. split; [done|].
  split; [|split; [|split; [done|]]].
  - intros j dst src Hj. split; [by apply (Hsrc j dst src)|].
    apply Helem in Hj as (i & Hi & -> & -> & _).
    pose proof (count_set_bounds bits off i). lia.
  - intros j1 j2 dst1 src1 dst2 src2 Hlt H1 H2.
    pose proof (rank_moves_descend _ _ _ _ _ _ _ H1 H2 Hlt) as Hd. simpl in Hd.
    apply Helem in H1 as (i1 & _ & -> & -> & _).
    apply Helem in H2 as (i2 & _ & -> & -> & Hb2).
    pose proof (count_set_lt bits off i2 i1 ltac:(lia) Hb2).
    pose proof (count_set_bounds bits off i2). lia.
  - intros src Hsrc_range.
    destruct (lookup_lt_is_Some_2 log
                (Z.to_nat (count_set bits off (Z.to_nat num_values) - 1 - src)))
      as [[dst src'] Hj]; [lia|].
    pose proof (Hsrc _ _ _ Hj) as [Heq _].
    assert (src' = src) as -> by lia.
    exists dst. split; [by eapply list_elem_of_lookup_2|].
    split; [|by eapply Hmoved].
    apply Helem in Hj as (i & _ & -> & Hs & _).
    pose proof (count_set_bounds bits off i). lia.
Qed.

(** X1. When [DecodeSpaced] returns, whatever the pattern and whatever
    [null_count] was passed: [Decode] had returned the count asked for; the
    members are as [Decode] left them; the buffer has kept its length; every
    slot at index [num_values] or above and every null slot holds what it
    held after [Decode]; and all [num_values] addressed bits were in the
    bitmap. *)
Theorem DecodeSpaced_writes_only_valid_slots K m (n nc : Z) bits off (r : Z) m' :
  Int.int_min < n ≤ Int.int_max →
  DecodeSpaced K n nc bits off m = (Returned r, m') →
  ∃ m1,
    Decode K (Int.sub32 n nc) m = (Returned (Int.sub32 n nc), m1)
    ∧ self m' = self m1
    ∧ length (buffer m') = length (buffer m1)
    ∧ (∀ i, n ≤ Z.of_nat i → buffer m' !! i = buffer m1 !! i)
    ∧ (∀ i, valid_slot bits off (Z.of_nat i) = Some false →
         buffer m' !! i = buffer m1 !! i)
    ∧ (∀ i, Z.of_nat i < n → is_Some (valid_slot bits off (Z.of_nat i))).
Proof.
  intros Hn Hrun.
  apply DecodeSpaced_Returned_inv in Hrun as (_ & m1 & log & Hdec & Hloop).
  rewrite (loop_count n Hn) in Hloop.
  apply spacing_loop_frame in Hloop as (Hs & Hl & Hge & Hclr & Hcov).
  exists m1. repeat split; try done.
  - intros i Hi. apply Hge. lia.
  - intros i Hb. destruct (decide (i < Z.to_nat n)%nat); [by apply Hclr|].
    apply Hge. lia.
  - intros i Hi. apply Hcov. lia.
Qed.

(** X2. With [0 <= null_count <= num_values], a bitmap holding the
    [num_values] addressed bits, [c] of them clear, a [Decode] that returned
    the count asked for and a buffer of at least [num_values] entries:
    [DecodeSpaced] returns [num_values] exactly when [null_count <= c], and
    runs off the front of the buffer exactly when [null_count > c]. *)
Theorem DecodeSpaced_in_bounds_iff K m m1 (n nc c : Z) bits off :
  0 ≤ nc ≤ n →
  n ≤ Int.int_max →
  count_clear bits off (Z.to_nat n) = Some c →
  Decode K (n - nc) m = (Returned (n - nc), m1) →
  n ≤ Z.of_nat (length (buffer m1)) →
  ((DecodeSpaced K n nc bits off m).1 = Returned n ↔ nc ≤ c)
  ∧ ((DecodeSpaced K n nc bits off m).1 = Undefined ↔ c < nc).
Proof.
  intros Hnc Hmax Hc Hdec Hlen.
  pose proof int_min_neg as Hmin.
  pose proof (count_clear_set _ _ _ _ Hc) as Hcs.
  assert (Int.sub32 n nc = n - nc) as Hsub by (apply sub32_exact; lia).
  rewrite <- Hsub in Hdec.
  rewrite (DecodeSpaced_after_match _ _ _ _ _ _ _ Hdec), Hsub.
  rewrite loop_count by lia.
  destruct (decide (nc ≤ c)) as [Hle|Hgt].
  - destruct m1 as [s1 buf1]. simpl in Hlen.
    destruct (spacing_loop_in_bounds bits off (Z.to_nat n) (n - nc) s1 buf1)
      as (log & final & Hrun); [| lia | lia | lia |].
    { intros i Hi. by apply (count_clear_covered bits off (Z.to_nat n) c). }
    rewrite (bind_Returned _ _ _ _ _ Hrun). simpl.
    split; split; try done; lia.
  - pose proof (spacing_loop_overrun bits off (Z.to_nat n) (n - nc) m1) as Hover.
    destruct (spacing_loop bits off (Z.to_nat n) (n - nc) m1)
      as [r m2] eqn:Hrun.
    simpl in Hover. rewrite Hover in Hrun by lia.
    rewrite (bind_Undefined _ _ _ _ Hrun). simpl.
    split; split; try done; lia.
Qed.

(** X3. [DecodeSpaced] ends in one of four ways only. If it returns, the
    value is [num_values] and [Decode] returned the count asked for. If it
    throws, either [Decode] threw that exception, or [Decode] returned
    another count than asked for and the exception is the count mismatch;
    either way memory is as [Decode] left it. Otherwise it left defined
    behaviour. *)
Theorem DecodeSpaced_outcomes K m (n nc : Z) bits off :
  (∀ r m', DecodeSpaced K n nc bits off m = (Returned r, m') →
     r = n
     ∧ (Decode K (Int.sub32 n nc) m).1 = Returned (Int.sub32 n nc))
  ∧ (∀ e m', DecodeSpaced K n nc bits off m = (Thrown e, m') →
       Decode K (Int.sub32 n nc) m = (Thrown e, m')
       ∨ (e = count_mismatch
          ∧ ∃ v, Decode K (Int.sub32 n nc) m = (Returned v, m')
                 ∧ v ≠ Int.sub32 n nc)).
Proof.
  split.
  - intros r m' Hrun.
    apply DecodeSpaced_Returned_inv in Hrun as (-> & m1 & log & Hdec & _).
    by rewrite Hdec.
  - intros e m'. apply DecodeSpaced_Thrown_inv.
Qed.

(** X4. When none of the [num_values] addressed slots is non-null (an
    all-null request, or [num_values <= 0]) and [Decode] returned the count
    asked for, [DecodeSpaced] returns [num_values] and leaves memory exactly
    as [Decode] left it; the output buffer is not accessed, whatever its
    size. *)
Theorem DecodeSpaced_without_valid_slots K m m1 (n nc : Z) bits off :
  Int.int_min < n ≤ Int.int_max →
  (∀ i, (i < Z.to_nat n)%nat →
     valid_slot bits off (Z.of_nat i) = Some false) →
  Decode K (Int.sub32 n nc) m = (Returned (Int.sub32 n nc), m1) →
  DecodeSpaced K n nc bits off m = (Returned n, m1).
Proof.
  intros Hn Hall Hdec.
  rewrite (DecodeSpaced_after_match _ _ _ _ _ _ _ Hdec), (loop_count n Hn).
  by rewrite (bind_Returned _ _ _ _ _
    (spacing_loop_all_clear bits off (Z.to_nat n) (Int.sub32 n nc) m1 Hall)).
Qed.

(** X5. When the redistribution pass of [DecodeSpaced] ends normally,
    whatever the pattern and the count it started from: it made exactly one
    move per non-null slot, into those slots from the last to the first; the
    source of the [j]-th move is [values_read - 1 - j]; and every source is
    an index of the buffer. *)
Theorem spacing_loop_one_move_per_valid_slot m (n values_read : Z) bits off
    (log : list (Z * Z)) m' :
  Int.int_min < n ≤ Int.int_max →
  Int.int_min < values_read ≤ Int.int_max →
  spacing_loop bits off (Z.to_nat (Int.sub32 n 1 + 1)) values_read m
    = (Returned log, m') →
  log.*1 = valid_slots bits off (Z.to_nat n)
  ∧ Z.of_nat (length log) = count_set bits off (Z.to_nat n)
  ∧ (∀ j dst src, log !! j = Some (dst, src) →
       src = values_read - 1 - Z.of_nat j
       ∧ 0 ≤ src < Z.of_nat (length (buffer m))).
Proof.
  intros Hn Hv Hrun. rewrite (loop_count n Hn) in Hrun.
  apply spacing_loop_log in Hrun as (Hdst & Hlen & _ & Hsrc); done.
Qed.

(** If every non-null slot among the first [k] holds the entry of [vals] at
    its rank, reading those slots in index order gives the front of [vals]. *)
Lemma valid_entries_rank bits off (final vals : list T) k :
  count_set bits off k ≤ Z.of_nat (length vals) →
  (∀ i, (i < k)%nat → valid_slot bits off (Z.of_nat i) = Some true →
     final !! i = vals !! Z.to_nat (count_set bits off i)) →
  valid_entries bits off k final
  = take (Z.to_nat (count_set bits off k)) vals.
Proof.
  induction k as [|k IH]; intros Hcnt Hrank; [done|].
  pose proof (count_set_bounds bits off k) as Hcs.
  simpl in Hcnt |- *.
  destruct (valid_slot bits off (Z.of_nat k)) as [[]|] eqn:Hb.
  - rewrite IH by (lia || (intros; apply Hrank; [lia|done])).
    rewrite (Hrank k) by (lia || done).
    destruct (lookup_lt_is_Some_2 vals (Z.to_nat (count_set bits off k)))
      as [v Hv]; [lia|].
    rewrite Hv.
    replace (Z.to_nat (count_set bits off k + 1))
      with (S (Z.to_nat (count_set bits off k))) by lia.
    by rewrite (take_S_r _ _ _ Hv).
  - rewrite Z.add_0_r in *. rewrite app_nil_r.
    apply IH; [lia | intros; apply Hrank; [lia|done]].
  - rewrite Z.add_0_r in *. rewrite app_nil_r.
    apply IH; [lia | intros; apply Hrank; [lia|done]].
Qed.

(** X6. For an output buffer of [num_values] entries, a pattern with exactly
    [null_count] clear bits among the [num_values] addressed, and a [Decode]
    that supplies [num_values - null_count] values [vals] at the front of the
    buffer: after [DecodeSpaced], reading the non-null slots of the buffer in
    index order gives back [vals], all of them, each once, in order. *)
Theorem DecodeSpaced_valid_entries_are_dense_run K
    (s s' : Members Derived) (buf vals : list T)
    (num_values null_count : Z) bits off :
  Z.of_nat (length buf) = num_values →
  num_values ≤ Int.int_max →
  count_clear bits off (length buf) = Some null_count →
  Z.of_nat (length vals) = num_values - null_count →
  Decode K (num_values - null_count) (mkMem s buf)
    = (Returned (num_values - null_count),
       mkMem s' (vals ++ drop (length vals) buf)) →
  ∃ final,
    DecodeSpaced K num_values null_count bits off (mkMem s buf)
      = (Returned num_values, mkMem s' final)
    ∧ valid_entries bits off (length buf) final = vals.
Proof.
  intros Hn Hmax Hnull Hvals Hdense.
  pose proof (count_clear_bounds _ _ _ _ Hnull) as Hnc.
  pose proof (count_clear_set _ _ _ _ Hnull) as Hcs.
  pose proof int_min_neg as Hmin.
  assert (Int.sub32 num_values null_count = num_values - null_count) as Hsub
    by (apply sub32_exact; lia).
  rewrite <- Hsub in Hdense.
  rewrite (DecodeSpaced_after_match _ _ _ _ _ _ _ Hdense), Hsub.
  rewrite loop_count by lia.
  replace (Z.to_nat num_values) with (length buf) by lia.
  destruct (spacing_loop_rank bits off (length buf) null_count s'
              (vals ++ drop (length vals) buf))
    as (final & Hrun & _ & _ & Hset & _);
    [done | rewrite length_app, length_drop; lia | lia |].
  replace (num_values - null_count) with (count_set bits off (length buf)) by lia.
  exists final. rewrite (bind_Returned _ _ _ _ _ Hrun). split; [done|].
  rewrite (valid_entries_rank bits off final vals (length buf)).
  - apply take_ge. lia.
  - lia.
  - intros i Hi Hb.
    pose proof (count_set_lt bits off i (length buf) Hi Hb).
    pose proof (count_set_bounds bits off i).
    rewrite (Hset i Hi Hb). apply lookup_app_l. lia.
Qed.

(** X7. However [DecodeSpaced] ends within defined behaviour, the object is
    then exactly as the [Decode] call it makes leaves it: [values_left()]
    has dropped by what [Decode] consumed, not by [num_values]. *)
Theorem DecodeSpaced_consumes_what_Decode_consumes K
    (d : Decoder ColumnDescriptor EncodingType Derived) (buf : list T)
    (n nc : Z) bits off :
  (call_on (DecodeSpaced K n nc bits off) d buf).1.1 ≠ Undefined →
  (call_on (DecodeSpaced K n nc bits off) d buf).1.2
    = (call_on (Decode K (Int.sub32 n nc)) d buf).1.2
  ∧ values_left (call_on (DecodeSpaced K n nc bits off) d buf).1.2
    = values_left (call_on (Decode K (Int.sub32 n nc)) d buf).1.2.
Proof.
  intros Hdef.
  assert ((call_on (DecodeSpaced K n nc bits off) d buf).1.2
          = (call_on (Decode K (Int.sub32 n nc)) d buf).1.2) as Heq;
    [|by rewrite Heq].
  unfold call_on in *.
  destruct (DecodeSpaced K n nc bits off (mkMem (members d) buf))
    as [[r|e|] m'] eqn:Hrun; simpl in Hdef; [| |done].
  - apply DecodeSpaced_Returned_inv in Hrun as (_ & m1 & log & Hdec & Hloop).
    apply spacing_loop_frame in Hloop as (Hs & _).
    rewrite Hdec. simpl. by rewrite Hs.
  - apply DecodeSpaced_Thrown_inv in Hrun as [Hdec | (_ & v & Hdec & _)];
      by rewrite Hdec.
Qed.

(** X8. On a class that overrides neither [Decode] nor [DecodeSpaced], any
    sequence of [Decode] and [DecodeSpaced] calls leaves the object exactly
    as it was; on a newly constructed decoder [values_left()] is still 0
    after them. *)
Theorem inherited_decoding_leaves_object K
    (descr : ColumnDescriptor) (enc : EncodingType) (init : Derived)
    (d : Decoder ColumnDescriptor EncodingType Derived)
    (qs : list (request T)) :
  Decode_override K = None →
  DecodeSpaced_override K = None →
  Forall (λ q, decoding_request q = true) qs →
  serve_all K d qs = d
  ∧ values_left (serve_all K (mkDecoder descr enc init) qs) = 0.
Proof.
  intros HD HS Hqs.
  assert (∀ d0 : Decoder ColumnDescriptor EncodingType Derived,
            serve_all K d0 qs = d0) as Hall.
  { unfold serve_all. induction Hqs as [|q qs Hq _ IH]; intros d0; [done|].
    simpl. rewrite <- (IH d0) at 2. f_equal.
    destruct q as [? ? ?|buf max_values|buf n nc bits off]; [done| |];
      unfold serve, call_on.
    - rewrite (Decode_inherited K HD). by destruct d0.
    - unfold DecodeSpaced_virtual. rewrite HS. simpl.
      rewrite (DecodeSpaced_after_throw K _ (mkMem (members d0) buf)
                 not_implemented)
        by (by rewrite (Decode_inherited K HD)).
      by destruct d0. }
  split; [apply Hall|]. by rewrite Hall.
Qed.

End SpacedFacts.

(** ** These theorems at the sample inputs *)

Section SpacedSampleFacts.

Import Samples.

Lemma spacing_moves_never_clobber_witness :
  ∃ log final,
    spacing_loop pattern_10101 0 (Z.to_nat (Int.sub32 5 1 + 1))
        (Int.sub32 5 2) (mkMem drained dense_ABC)
      = (Returned log, mkMem drained final)
    ∧ log.*1 = valid_slots pattern_10101 0 (Z.to_nat 5)
    ∧ Z.of_nat (length log) = 5 - 2
    ∧ (∀ (j : nat) dst src, log !! j = Some (dst, src) →
         src = 5 - 2 - 1 - Z.of_nat j ∧ 0 ≤ src ≤ dst ∧ dst < 5)
    ∧ (∀ (j1 j2 : nat) dst1 src1 dst2 src2, (j1 < j2)%nat →
         log !! j1 = Some (dst1, src1) → log !! j2 = Some (dst2, src2) →
         src2 < src1 ∧ src2 < dst1)
    ∧ (∀ (j : nat) dst src, log !! j = Some (dst, src) →
         final !! Z.to_nat dst = dense_ABC !! Z.to_nat src)
    ∧ (∀ src, 0 ≤ src < 5 - 2 →
         ∃ dst, (dst, src) ∈ log
                ∧ src ≤ dst
                ∧ final !! Z.to_nat dst = dense_ABC !! Z.to_nat src).
Proof.
  apply (spacing_moves_never_clobber drained dense_ABC 5 2 pattern_10101 0).
  - by vm_compute.
  - reflexivity.
  - by vm_compute.
Defined.

Lemma DecodeSpaced_writes_only_valid_slots_witness :
  ∃ m1,
    Decode bytewise (Int.sub32 5 2) (mkMem page_ABC caller_slots)
      = (Returned (Int.sub32 5 2), m1)
    ∧ self (mkMem drained [10; 20; 20; 94; 30]) = self m1
    ∧ length (buffer (mkMem drained [10; 20; 20; 94; 30])) = length (buffer m1)
    ∧ (∀ i : nat, 5 ≤ Z.of_nat i →
         buffer (mkMem drained [10; 20; 20; 94; 30]) !! i = buffer m1 !! i)
    ∧ (∀ i : nat, valid_slot pattern_10101 0 (Z.of_nat i) = Some false →
         buffer (mkMem drained [10; 20; 20; 94; 30]) !! i = buffer m1 !! i)
    ∧ (∀ i : nat, Z.of_nat i < 5 →
         is_Some (valid_slot pattern_10101 0 (Z.of_nat i))).
Proof.
  apply (DecodeSpaced_writes_only_valid_slots bytewise
           (mkMem page_ABC caller_slots) 5 2 pattern_10101 0 5
           (mkMem drained [10; 20; 20; 94; 30])).
  - split; by vm_compute.
  - reflexivity.
Defined.

Lemma DecodeSpaced_in_bounds_iff_witness :
  ((DecodeSpaced bytewise 5 2 pattern_10101 0
      (mkMem page_ABC caller_slots)).1 = Returned 5 ↔ 2 ≤ 2)
  ∧ ((DecodeSpaced bytewise 5 2 pattern_10101 0
        (mkMem page_ABC caller_slots)).1 = Undefined ↔ 2 < 2).
Proof.
  apply (DecodeSpaced_in_bounds_iff bytewise (mkMem page_ABC caller_slots)
           (mkMem drained dense_ABC) 5 2 2 pattern_10101 0).
  - split; by vm_compute.
  - by vm_compute.
  - reflexivity.
  - reflexivity.
  - by vm_compute.
Defined.

Lemma DecodeSpaced_without_valid_slots_witness :
  DecodeSpaced bytewise 3 3 pattern_all_clear 0 (mkMem page_ABC [])
  = (Returned 3, mkMem page_ABC []).
Proof.
  apply (DecodeSpaced_without_valid_slots bytewise (mkMem page_ABC [])
           (mkMem page_ABC []) 3 3 pattern_all_clear 0).
  - split; by vm_compute.
  - intros [|[|[|i]]] Hi; [reflexivity | reflexivity | reflexivity |].
    simpl in Hi. lia.
  - reflexivity.
Defined.

Lemma spacing_loop_one_move_per_valid_slot_witness :
  [(4, 3); (2, 2); (0, 1)].*1 = valid_slots pattern_10101 0 (Z.to_nat 5)
  ∧ Z.of_nat (length [(4, 3); (2, 2); (0, 1)])
    = count_set pattern_10101 0 (Z.to_nat 5)
  ∧ (∀ (j : nat) (dst src : Z),
       [(4, 3); (2, 2); (0, 1)] !! j = Some (dst, src) →
       src = 4 - 1 - Z.of_nat j
       ∧ 0 ≤ src
           < Z.of_nat (length (buffer (mkMem drained [10; 20; 30; 40; 95])))).
Proof.
  apply (spacing_loop_one_move_per_valid_slot
           (mkMem drained [10; 20; 30; 40; 95]) 5 4 pattern_10101 0
           [(4, 3); (2, 2); (0, 1)] (mkMem drained [20; 20; 30; 40; 40])).
  - split; by vm_compute.
  - split; by vm_compute.
  - reflexivity.
Defined.

Lemma DecodeSpaced_valid_entries_are_dense_run_witness :
  ∃ final,
    DecodeSpaced bytewise 5 2 pattern_10101 0 (mkMem page_ABC caller_slots)
      = (Returned 5, mkMem drained final)
    ∧ valid_entries pattern_10101 0 (length caller_slots) final = [10; 20; 30].
Proof.
  apply (DecodeSpaced_valid_entries_are_dense_run bytewise page_ABC drained
           caller_slots [10; 20; 30] 5 2 pattern_10101 0).
  - reflexivity.
  - by vm_compute.
  - reflexivity.
  - reflexivity.
  - reflexivity.
Defined.

Lemma DecodeSpaced_consumes_what_Decode_consumes_witness :
  (call_on (DecodeSpaced bytewise 5 2 pattern_10101 0)
     (mkObject () () page_ABC) caller_slots).1.2
    = (call_on (Decode bytewise (Int.sub32 5 2))
         (mkObject () () page_ABC) caller_slots).1.2
  ∧ values_left
      (call_on (DecodeSpaced bytewise 5 2 pattern_10101 0)
         (mkObject () () page_ABC) caller_slots).1.2
    = values_left
        (call_on (Decode bytewise (Int.sub32 5 2))
           (mkObject () () page_ABC) caller_slots).1.2.
Proof.
  apply (DecodeSpaced_consumes_what_Decode_consumes bytewise
           (mkObject () () page_ABC) caller_slots 5 2 pattern_10101 0).
  by vm_compute.
Defined.

Lemma inherited_decoding_leaves_object_witness :
  serve_all inheriting (mkObject () () (mkMembers 7 ()))
    [ReqDecode caller_slots 3; ReqDecodeSpaced caller_slots 5 2 pattern_10101 0]
  = mkObject () () (mkMembers 7 ())
  ∧ values_left
      (serve_all inheriting (mkDecoder () () ())
         [ReqDecode caller_slots 3;
          ReqDecodeSpaced caller_slots 5 2 pattern_10101 0]) = 0.
Proof.
  apply (inherited_decoding_leaves_object inheriting () () ()
           (mkObject () () (mkMembers 7 ()))
           [ReqDecode caller_slots 3;
            ReqDecodeSpaced caller_slots 5 2 pattern_10101 0]).
  - reflexivity.
  - reflexivity.
  - repeat constructor.
Defined.

End SpacedSampleFacts.
